(** * RDLCompiler: the compile / elaborate driver of the SystemRDL compiler

    A shallow embedding of [systemrdl/compiler.py].  The driver is
    imperative Python: it mutates the compiler session, raises exceptions
    and calls into collaborators (parser front end, [RootVisitor], the
    tree walker and its listeners) that live in other modules.  The
    embedding is a state-and-exception monad over an explicit session
    with an object store, so that [deepcopy] and the in-place mutations
    of the elaboration passes can be told apart from aliasing. *)

From stdpp Require Import base list strings.
From Stdlib Require Import String List Arith Lia.
Import ListNotations.
Open Scope string_scope.
Open Scope list_scope.

(** ** Component objects *)

(** [component.py] distinguishes the categories by class
    ([comp.Addrmap], ...); [isinstance] becomes a test on the tag. *)
Inductive Category := Field | Reg | Regfile | Addrmap | Mem | Signal.

Definition is_Addrmap (c : Category) : bool :=
  match c with Addrmap => true | _ => false end.

Inductive PropValue :=
  | VInt (n : nat)
  | VBool (b : bool)
  | VStr (s : string).

#[warnings="-register-all"]
Inductive Component := mkComponent {
  category : Category;
  type_name : string;
  inst_name : option string;
  is_instance : bool;
  properties : list (string * PropValue);
  children : list Component
}.

Definition set_is_instance (b : bool) (c : Component) : Component :=
  mkComponent (category c) (type_name c) (inst_name c) b
              (properties c) (children c).

Definition set_inst_name (n : string) (c : Component) : Component :=
  mkComponent (category c) (type_name c) (Some n) (is_instance c)
              (properties c) (children c).

(** ** The session and its object store *)

(** A Python variable holds a reference.  [loc] is the identity of a
    component object: an index into the store.  A location outside the
    store stands for an object that is not a component at all. *)
Definition loc := nat.

(** [node.Node]: a handle on an instance (the back-reference to the
    compiler is the session itself). *)
Record Node := mkNode { inst : loc }.

Inductive Listener :=
  | ElabExpressionsListener
  | PrePlacementValidateListener
  | StructuralPlacementListener
  | ValidateListener.

(** What the driver asked of its collaborators, oldest first.  A visit
    is recorded with the default-property stack it started from.  A walk
    is recorded with the walker's configuration, the listeners in the
    order they were attached, the node it started from, and the value of
    the message handler's error counter at the moment of the call. *)
Inductive Call :=
  | CallVisit (defaults : list (list (string * PropValue)))
  | CallWalk (skip_not_present : bool) (listeners : list Listener)
             (top_node : Node) (errors_outstanding : nat).

Record Session := mkSession {
  error_count : nat;                                           (* self.msg.error_count *)
  default_property_ns_stack : list (list (string * PropValue)); (* self.namespace... *)
  comp_defs : list (string * loc);                             (* self.root.comp_defs *)
  heap : list Component                                        (* the component objects *)
}.

Record World := mkWorld {
  session : Session;
  calls : list Call
}.

Definition with_error_count (n : nat) (s : Session) : Session :=
  mkSession n (default_property_ns_stack s) (comp_defs s) (heap s).

Definition with_default_property_ns_stack
    (st : list (list (string * PropValue))) (s : Session) : Session :=
  mkSession (error_count s) st (comp_defs s) (heap s).

Definition with_heap (h : list Component) (s : Session) : Session :=
  mkSession (error_count s) (default_property_ns_stack s) (comp_defs s) h.

(** ** Exceptions and the driver monad *)

Inductive Exception :=
  | RDLCompileError (text : string)
  | NotImplementedError
  | AttributeError.

Inductive Outcome (A : Type) :=
  | Return (a : A)
  | Raise (e : Exception).
Arguments Return {A} a.
Arguments Raise {A} e.

(** A raised exception unwinds, but what was written to the session
    before it stays written. *)
Definition M (A : Type) : Type := World -> Outcome A * World.

Definition ret {A} (a : A) : M A := fun w => (Return a, w).

Definition bind {A B} (m : M A) (k : A -> M B) : M B :=
  fun w => match m w with
           | (Return a, w') => k a w'
           | (Raise e, w') => (Raise e, w')
           end.

Definition raise {A} (e : Exception) : M A := fun w => (Raise e, w).

Definition gets {A} (f : Session -> A) : M A :=
  fun w => (Return (f (session w)), w).

Definition modify (f : Session -> Session) : M unit :=
  fun w => (Return tt, mkWorld (f (session w)) (calls w)).

Definition record_call (c : Call) : M unit :=
  fun w => (Return tt, mkWorld (session w) (calls w ++ [c])).

Declare Scope rdl_scope.
Delimit Scope rdl_scope with rdl.
Notation "x <- m ;; k" := (bind m (fun x => k))
  (at level 100, m at next level, right associativity) : rdl_scope.
Notation "m ;; k" := (bind m (fun _ => k))
  (at level 100, right associativity) : rdl_scope.
Open Scope rdl_scope.

(** Modelled from the spec: [messages.MessageHandler.fatal] is not among
    the sources.  A fatal condition prints its message and raises the
    unwinding compile error; it never returns to the caller. *)
Definition msg_fatal {A} (text : string) : M A :=
  raise (RDLCompileError text).

(** Python's truth value of an integer: [if n:] *)
Definition truthy (n : nat) : bool := negb (Nat.eqb n 0).

(** [if cond: self.msg.fatal(text)] *)
Definition fatal_if (cond : bool) (text : string) : M unit :=
  if cond then msg_fatal text else ret tt.

(** ** Dictionaries in insertion order *)

(** [self.root.comp_defs] is an ordered dictionary; the driver looks a
    name up and iterates over the values from the last one inserted. *)
Fixpoint dict_get {V} (k : string) (d : list (string * V)) : option V :=
  match d with
  | [] => None
  | (k', v) :: d' => if String.eqb k k' then Some v else dict_get k d'
  end.

Definition dict_values {V} (d : list (string * V)) : list V := map snd d.

(** ** Object store operations *)

(** [isinstance(x, comp.Addrmap)] *)
Definition isinstance_Addrmap (h : list Component) (l : loc) : bool :=
  match h !! l with
  | Some c => is_Addrmap (category c)
  | None => false
  end.

(** [copy.deepcopy]: a component is cloned into a new object, which gets
    an identity no live object has; anything else is atomic and is
    returned as it is.  A cell of this store is a component together
    with everything under it; [Graph.deepcopy] below is the copy object
    by object. *)
Definition deepcopy (l : loc) : M loc :=
  fun w =>
    let h := heap (session w) in
    match h !! l with
    | Some c => (Return (length h),
                 mkWorld (with_heap (h ++ [c]) (session w)) (calls w))
    | None => (Return l, w)
    end.

(** [obj.attr = value] on the object [l] refers to. *)
Definition setattr (l : loc) (f : Component -> Component) : M unit :=
  fun w =>
    let h := heap (session w) in
    match h !! l with
    | Some c => (Return tt,
                 mkWorld (with_heap (<[l := f c]> h) (session w)) (calls w))
    | None => (Raise AttributeError, w)
    end.

(** Modelled from the spec: [Node._factory] is not among the sources.
    It wraps a reference to the instance and never mutates the tree. *)
Definition Node_factory (top_inst : loc) : M Node := ret (mkNode top_inst).

(** Modelled from the spec: the default of [RDLWalker()] is not among the
    sources; final validation skips instances marked not present. *)
Definition RDLWalker_default_skip_not_present : bool := true.

(** [obj.attr] *)
Definition getattr {A} (l : loc) (f : Component -> A) : M A :=
  fun w =>
    match heap (session w) !! l with
    | Some c => (Return (f c), w)
    | None => (Raise AttributeError, w)
    end.

(** [RDLCompiler.__init__]: a message handler that has counted nothing,
    a namespace whose default-property stack is one empty frame, and a
    root component without definitions. *)
Definition RDLCompiler_init : World :=
  mkWorld (mkSession 0 [[]] [] []) [].

(** ** The driver *)

Section RDLCompiler.

(** The collaborators of [compiler.py] that live in other modules.

    - [antlr_parse path] is the front end (file stream, lexer, parser):
      the parse tree of the file and the number of syntax errors it
      reported to the error listener.
    - [visit tree s] is [RootVisitor.visit]: it builds definitions into
      the session, counts the semantic errors it finds, and gives the
      text of a fatal message when it stops early.
    - [walk skip_not_present listeners c n] is [RDLWalker.walk] over
      the instance tree [c] with the error counter at [n]: the
      instance as the listeners left it, the new error counter, and
      the text of a fatal message when a listener stopped the walk.
      The property rule book the listeners consult is fixed for a
      compiler, and so is part of [walk]. *)
Variable ParseTree : Type.
Variable antlr_parse : string -> ParseTree * nat.
Variable visit : ParseTree -> Session -> option string * Session.
Variable walk :
  bool -> list Listener -> Component -> nat -> option string * Component * nat.

(** [parser.root()] with [RDLAntlrErrorListener(self.msg)] attached.
    Modelled from the spec: the listener is not among the sources; it
    reports each syntax error to the message handler, which counts it. *)
Definition parser_root (path : string) : M ParseTree :=
  let '(parsed_tree, syntax_errors) := antlr_parse path in
  modify (fun s => with_error_count (error_count s + syntax_errors) s) ;;
  ret parsed_tree.

(** [self.visitor.visit(parsed_tree)] *)
Definition visitor_visit (parsed_tree : ParseTree) : M unit :=
  defaults <- gets default_property_ns_stack ;;
  record_call (CallVisit defaults) ;;
  fun w =>
    let '(r, s') := visit parsed_tree (session w) in
    let w' := mkWorld s' (calls w) in
    match r with
    | None => (Return tt, w')
    | Some text => (Raise (RDLCompileError text), w')
    end.

(** [walker.RDLWalker(skip_not_present=...).walk(top_node, *listeners)].
    The listeners mutate the instance the node refers to, in place. *)
Definition RDLWalker_walk (skip_not_present : bool) (top_node : Node)
    (listeners : list Listener) : M unit :=
  n <- gets error_count ;;
  record_call (CallWalk skip_not_present listeners top_node n) ;;
  fun w =>
    let h := heap (session w) in
    match h !! inst top_node with
    | None => (Raise AttributeError, w)
    | Some c =>
        let '(r, c', n') := walk skip_not_present listeners c n in
        let w' := mkWorld (with_error_count n'
                     (with_heap (<[inst top_node := c']> h) (session w)))
                    (calls w) in
        match r with
        | None => (Return tt, w')
        | Some text => (Raise (RDLCompileError text), w')
        end
    end.

(** [RDLCompiler.compile_file] *)
Definition compile_file (path : string) : M unit :=
  (* Run Antlr parser on input *)
  parsed_tree <- parser_root path ;;
  n <- gets error_count ;;
  fatal_if (truthy n) "Parse aborted due to previous errors" ;;
  (* Traverse parse tree with RootVisitor *)
  visitor_visit parsed_tree ;;
  (* Reset default property assignments from namespace *)
  modify (with_default_property_ns_stack [[]]) ;;
  n <- gets error_count ;;
  fatal_if (truthy n) "Compile aborted due to previous errors".

(** Lines 120-137 of [RDLCompiler.elaborate]: the top-level component
    definition to elaborate, and the name it goes by. *)
Definition select_top_def (top_def_name : option string) : M (loc * string) :=
  defs <- gets comp_defs ;;
  h <- gets heap ;;
  match top_def_name with
  | Some name =>
      (* Lookup top_def_name *)
      match dict_get name defs with
      | None =>
          msg_fatal ("Elaboration target '" ++ name ++ "' not found")%string
      | Some top_def =>
          fatal_if (negb (isinstance_Addrmap h top_def))
            ("Elaboration target '" ++ name
               ++ "' is not an 'addrmap' component")%string ;;
          ret (top_def, name)
      end
  | None =>
      (* Not specified. Find the last addrmap defined *)
      match List.find (isinstance_Addrmap h) (rev (dict_values defs)) with
      | Some comp_def =>
          name <- getattr comp_def type_name ;;
          ret (comp_def, name)
      | None =>
          msg_fatal "Could not find any 'addrmap' components to elaborate"
      end
  end.

(** [RDLCompiler.elaborate] *)
Definition elaborate (top_def_name inst_name : option string)
    (parameters : option (list (string * PropValue))) : M Node :=
  let parameters := match parameters with None => [] | Some p => p end in
  (* Get top-level component definition to elaborate *)
  target <- select_top_def top_def_name ;;
  let (top_def, top_def_name) := target in
  (* Create a top-level instance *)
  top_inst <- deepcopy top_def ;;
  setattr top_inst (set_is_instance true) ;;
  setattr top_inst
    (set_inst_name (match inst_name with
                    | Some n => n
                    | None => top_def_name
                    end)) ;;
  (* Override parameters as needed *)
  (if truthy (length parameters)
   then raise NotImplementedError else ret tt) ;;
  top_node <- Node_factory top_inst ;;
  (* Resolve all expressions *)
  RDLWalker_walk false top_node [ElabExpressionsListener] ;;
  (* Resolve address and field placement *)
  RDLWalker_walk false top_node
    [PrePlacementValidateListener; StructuralPlacementListener] ;;
  (* Validate design *)
  RDLWalker_walk RDLWalker_default_skip_not_present top_node
    [ValidateListener] ;;
  n <- gets error_count ;;
  fatal_if (truthy n) "Elaborate aborted due to previous errors" ;;
  ret top_node.

End RDLCompiler.

(** ** Sample collaborators

    Small stand-ins for the modules the driver calls into, used to run
    the driver on concrete designs. *)

Module Sample.

(** A parsed unit: component definitions and default-property
    assignments, in source order. *)
Inductive Stmt :=
  | Define (c : Component)
  | DefaultProperty (name : string) (value : PropValue).

Definition bare (cat : Category) (name : string)
    (props : list (string * PropValue)) (kids : list Component) : Component :=
  mkComponent cat name None false props kids.

Definition field_f : Component := bare Field "f" [("fieldwidth", VInt 8)] [].
Definition reg_r : Component := bare Reg "r" [("regwidth", VInt 32)] [field_f].
Definition map_a : Component := bare Addrmap "a" [] [reg_r].
Definition map_b : Component := bare Addrmap "b" [] [reg_r; reg_r].
(** An address map with a property the expression pass cannot resolve. *)
Definition map_bad : Component := bare Addrmap "bad" [("unresolved", VStr "x")] [].

Definition unit_ab : list Stmt :=
  [Define map_a; DefaultProperty "sw" (VStr "rw"); Define map_b; Define reg_r].

(** The front end: three known files; [broken.rdl] has two syntax
    errors. *)
Definition parse (path : string) : list Stmt * nat :=
  if String.eqb path "ab.rdl" then (unit_ab, 0)
  else if String.eqb path "dup.rdl" then ([Define map_a; Define map_a], 0)
  else if String.eqb path "bad.rdl" then ([Define map_bad], 0)
  else ([], 2).

Definition push_default (name : string) (value : PropValue)
    (st : list (list (string * PropValue))) : list (list (string * PropValue)) :=
  match st with
  | [] => [[(name, value)]]
  | frame :: rest => ((name, value) :: frame) :: rest
  end.

(** The visitor binds each definition under its type name, counts a
    name conflict as one error and carries on, and pushes default
    properties on the innermost frame. *)
Definition visit_stmt (s : Session) (st : Stmt) : Session :=
  match st with
  | Define c =>
      match dict_get (type_name c) (comp_defs s) with
      | Some _ => with_error_count (S (error_count s)) s
      | None =>
          mkSession (error_count s) (default_property_ns_stack s)
                    (comp_defs s ++ [(type_name c, length (heap s))])
                    (heap s ++ [c])
      end
  | DefaultProperty name value =>
      with_default_property_ns_stack
        (push_default name value (default_property_ns_stack s)) s
  end.

Definition visit (tree : list Stmt) (s : Session) : option string * Session :=
  (None, fold_left visit_stmt tree s).

Definition has_property (name : string) (c : Component) : bool :=
  match dict_get name (properties c) with Some _ => true | None => false end.

Definition add_property (name : string) (v : PropValue) (c : Component) : Component :=
  mkComponent (category c) (type_name c) (inst_name c) (is_instance c)
              ((name, v) :: properties c) (children c).

(** What one listener does to the root instance: the expression pass
    records an error for an unresolved property and carries on; the
    placement pass assigns address 0; the validators only look. *)
Definition listen (l : Listener) (cn : Component * nat) : Component * nat :=
  let (c, n) := cn in
  match l with
  | ElabExpressionsListener =>
      if has_property "unresolved" c then (c, S n) else (c, n)
  | StructuralPlacementListener => (add_property "address" (VInt 0) c, n)
  | PrePlacementValidateListener | ValidateListener => (c, n)
  end.

Definition walk (skip_not_present : bool) (listeners : list Listener)
    (c : Component) (n : nat) : option string * Component * nat :=
  let (c', n') := fold_right listen (c, n) (rev listeners) in
  (None, c', n').

(** A walker whose expression pass stops at the first problem. *)
Definition strict_walk (skip_not_present : bool) (listeners : list Listener)
    (c : Component) (n : nat) : option string * Component * nat :=
  match listeners with
  | [ElabExpressionsListener] =>
      if has_property "unresolved" c
      then (Some "Unresolvable expression", c, n)
      else (None, c, n)
  | _ => walk skip_not_present listeners c n
  end.

Definition compiled (path : string) : World :=
  snd (compile_file (list Stmt) parse visit path RDLCompiler_init).

Definition width8 : list (string * PropValue) := [("WIDTH", VInt 8)].

(** A unit that assigns a default property and then defines the same
    name twice, and a visitor that stops at a name conflict with a fatal
    error instead of counting it. *)
Definition unit_conflict : list Stmt :=
  [DefaultProperty "sw" (VStr "rw"); Define map_a; Define map_a].

Definition parse_conflict (path : string) : list Stmt * nat :=
  if String.eqb path "conflict.rdl" then (unit_conflict, 0) else parse path.

Fixpoint fatal_visit (tree : list Stmt) (s : Session)
    : option string * Session :=
  match tree with
  | [] => (None, s)
  | st :: rest =>
      match st with
      | Define c =>
          match dict_get (type_name c) (comp_defs s) with
          | Some _ => (Some "Multiple declarations of type", s)
          | None => fatal_visit rest (visit_stmt s st)
          end
      | DefaultProperty _ _ => fatal_visit rest (visit_stmt s st)
      end
  end.

End Sample.

(** ** Notions used to state the properties *)

Definition not_found_text (name : string) : string :=
  ("Elaboration target '" ++ name ++ "' not found")%string.

Definition not_addrmap_text (name : string) : string :=
  ("Elaboration target '" ++ name ++ "' is not an 'addrmap' component")%string.

Definition no_addrmap_text : string :=
  "Could not find any 'addrmap' components to elaborate".

(** The spec's [NoElaborationTarget] failure, for a call that asked for
    [top_def_name]: the fatal errors of target selection. *)
Definition NoElaborationTarget (top_def_name : option string)
    (e : Exception) : Prop :=
  match top_def_name with
  | Some name => e = RDLCompileError (not_found_text name)
                 \/ e = RDLCompileError (not_addrmap_text name)
  | None => e = RDLCompileError no_addrmap_text
  end.

(** The top-level instance as lines 139-145 leave it: the definition's
    content with the instance flag and the instance name set. *)
Definition top_instance (inst_name : option string) (top_def_name : string)
    (c : Component) : Component :=
  set_inst_name (match inst_name with Some n => n | None => top_def_name end)
                (set_is_instance true c).

(** The world once a new object holding [c] has been allocated. *)
Definition instantiated (w : World) (c : Component) : World :=
  mkWorld (with_heap (heap (session w) ++ [c]) (session w)) (calls w).

(** The world [w0] after walks over [top_node]: the instance is now [c],
    the error counter is [n], and [cs] was added to the call history. *)
Definition walked (w0 : World) (top_node : Node) (c : Component) (n : nat)
    (cs : list Call) : World :=
  mkWorld (mkSession n (default_property_ns_stack (session w0))
                     (comp_defs (session w0))
                     (<[inst top_node := c]> (heap (session w0))))
          (calls w0 ++ cs).

Definition walk1 (top_node : Node) (n : nat) : Call :=
  CallWalk false [ElabExpressionsListener] top_node n.
Definition walk2 (top_node : Node) (n : nat) : Call :=
  CallWalk false [PrePlacementValidateListener; StructuralPlacementListener]
           top_node n.
Definition walk3 (top_node : Node) (n : nat) : Call :=
  CallWalk true [ValidateListener] top_node n.

Definition elaborate_aborted_text : string :=
  "Elaborate aborted due to previous errors".

(** The error counter a call was made under, for a walk. *)
Definition errors_at (c : Call) : nat :=
  match c with CallWalk _ _ _ n => n | CallVisit _ => 0 end.

(** How the walker's verdict reaches the driver. *)
Definition outcome_of (r : option string) : Outcome unit :=
  match r with
  | None => Return tt
  | Some text => Raise (RDLCompileError text)
  end.

(** The three walks and the closing check of [elaborate], written out
    on the instance [c0] behind [top_node] and the error counter [n0]:
    each walk starts from what the one before it left. *)
Definition passes_result
    (walk : bool -> list Listener -> Component -> nat
            -> option string * Component * nat)
    (w0 : World) (top_node : Node) (c0 : Component) (n0 : nat)
    : Outcome Node * World :=
  let '(r1, c1, n1) := walk false [ElabExpressionsListener] c0 n0 in
  match r1 with
  | Some text =>
      (Raise (RDLCompileError text),
       walked w0 top_node c1 n1 [walk1 top_node n0])
  | None =>
      let '(r2, c2, n2) :=
        walk false [PrePlacementValidateListener; StructuralPlacementListener]
             c1 n1 in
      match r2 with
      | Some text =>
          (Raise (RDLCompileError text),
           walked w0 top_node c2 n2 [walk1 top_node n0; walk2 top_node n1])
      | None =>
          let '(r3, c3, n3) := walk true [ValidateListener] c2 n2 in
          let w3 := walked w0 top_node c3 n3
                      [walk1 top_node n0; walk2 top_node n1; walk3 top_node n2] in
          match r3 with
          | Some text => (Raise (RDLCompileError text), w3)
          | None =>
              (if truthy n3
               then Raise (RDLCompileError elaborate_aborted_text)
               else Return top_node, w3)
          end
      end
  end.

(** The calls a run added to the history it started from. *)
Definition new_calls (w w' : World) : list Call :=
  drop (length (calls w)) (calls w').

(** The reading of the error policy under which every sub-pass is gated:
    each walk of the run after the first one starts with the error
    counter at zero. *)
Definition gated_after_each_pass (w w' : World) : Prop :=
  forall c, In c (drop 1 (new_calls w w')) -> errors_at c = 0.

(** Listeners that leave the instance flag and the instance name of the
    root as the driver set them. *)
Definition keeps_root_identity
    (walk : bool -> list Listener -> Component -> nat
            -> option string * Component * nat) : Prop :=
  forall skip ls c n,
    is_instance (snd (fst (walk skip ls c n))) = is_instance c /\
    inst_name (snd (fst (walk skip ls c n))) = inst_name c.

Definition parse_aborted_text : string :=
  "Parse aborted due to previous errors".

Definition compile_aborted_text : string :=
  "Compile aborted due to previous errors".

(** The session [RootVisitor] is handed by [compile_file path]: the one
    the call started with, after the front end reported its syntax
    errors. *)
Definition parsed_session {ParseTree} (antlr_parse : string -> ParseTree * nat)
    (path : string) (s : Session) : Session :=
  with_error_count (error_count s + snd (antlr_parse path)) s.

(** Listeners that never take errors off the counter. *)
Definition counter_monotone
    (walk : bool -> list Listener -> Component -> nat
            -> option string * Component * nat) : Prop :=
  forall skip ls c n, n <= snd (walk skip ls c n).

(** ** The documentation build: [docs/conf.py] *)

(** [s.split(sep)] for a separator of one character. *)
Fixpoint str_split (sep : Ascii.ascii) (s : string) : list string :=
  match s with
  | EmptyString => [EmptyString]
  | String c s' =>
      if Ascii.eqb c sep then EmptyString :: str_split sep s'
      else match str_split sep s' with
           | [] => [String c EmptyString]
           | piece :: pieces => String c piece :: pieces
           end
  end.

(** [sep.join(pieces)] *)
Fixpoint str_join (sep : string) (pieces : list string) : string :=
  match pieces with
  | [] => EmptyString
  | piece :: rest =>
      match rest with
      | [] => piece
      | _ :: _ => (piece ++ sep ++ str_join sep rest)%string
      end
  end.

(** The full stop, character 46. *)
Definition dot : Ascii.ascii := Eval compute in Ascii.ascii_of_nat 46.

(** [rdl_version_short = ".".join(rdl_version.split('.')[:2])] *)
Definition rdl_version_short (rdl_version : string) : string :=
  str_join (String dot EmptyString) (firstn 2 (str_split dot rdl_version)).

(** Does the character occur in the string? *)
Fixpoint occurs (c : Ascii.ascii) (s : string) : bool :=
  match s with
  | EmptyString => false
  | String c' s' => Ascii.eqb c' c || occurs c s'
  end.

(** ** The object graph

    The store above keeps a component together with everything it owns
    in one cell, which is enough for the control flow of the driver.
    For the questions of sharing the granularity of Python is needed:
    every component is an object of its own and holds its children by
    reference, [copy.deepcopy] walks the graph and clones every object
    it reaches, and the walker and its listeners are handed the
    compiler, so they can reach every object of the session.  [Graph]
    embeds [elaborate] over that store. *)

Module Graph.

Record Obj := mkObj {
  category : Category;
  type_name : string;
  inst_name : option string;
  is_instance : bool;
  properties : list (string * PropValue);
  children : list loc
}.

Definition set_is_instance (b : bool) (o : Obj) : Obj :=
  mkObj (category o) (type_name o) (inst_name o) b (properties o) (children o).

Definition set_inst_name (n : string) (o : Obj) : Obj :=
  mkObj (category o) (type_name o) (Some n) (is_instance o)
        (properties o) (children o).

Definition set_children (cs : list loc) (o : Obj) : Obj :=
  mkObj (category o) (type_name o) (inst_name o) (is_instance o)
        (properties o) cs.

Record Session := mkSession {
  error_count : nat;
  default_property_ns_stack : list (list (string * PropValue));
  comp_defs : list (string * loc);
  heap : list Obj
}.

Record World := mkWorld {
  session : Session;
  calls : list Call
}.

Definition with_heap (h : list Obj) (s : Session) : Session :=
  mkSession (error_count s) (default_property_ns_stack s) (comp_defs s) h.

(** The collaborators are Python code: they can raise anything. *)
Inductive Exception :=
  | RDLCompileError (text : string)
  | NotImplementedError
  | AttributeError
  | RecursionError
  | OtherError (name : string).

Inductive Outcome (A : Type) :=
  | Return (a : A)
  | Raise (e : Exception).
Arguments Return {A} a.
Arguments Raise {A} e.

Definition M (A : Type) : Type := World -> Outcome A * World.

Definition ret {A} (a : A) : M A := fun w => (Return a, w).

Definition bind {A B} (m : M A) (k : A -> M B) : M B :=
  fun w => match m w with
           | (Return a, w') => k a w'
           | (Raise e, w') => (Raise e, w')
           end.

Definition raise {A} (e : Exception) : M A := fun w => (Raise e, w).

Definition gets {A} (f : Session -> A) : M A :=
  fun w => (Return (f (session w)), w).

Definition record_call (c : Call) : M unit :=
  fun w => (Return tt, mkWorld (session w) (calls w ++ [c])).

Declare Scope graph_scope.
Notation "x <- m ;; k" := (bind m (fun x => k))
  (at level 100, m at next level, right associativity) : graph_scope.
Notation "m ;; k" := (bind m (fun _ => k))
  (at level 100, right associativity) : graph_scope.
Local Open Scope graph_scope.

(** Modelled from the spec: [messages.MessageHandler.fatal] is not among
    the sources; it raises the unwinding compile error. *)
Definition msg_fatal {A} (text : string) : M A :=
  raise (RDLCompileError text).

Definition fatal_if (cond : bool) (text : string) : M unit :=
  if cond then msg_fatal text else ret tt.

(** [isinstance(x, comp.Addrmap)] *)
Definition isinstance_Addrmap (h : list Obj) (l : loc) : bool :=
  match h !! l with
  | Some o => is_Addrmap (category o)
  | None => false
  end.

(** [obj.attr] *)
Definition getattr {A} (l : loc) (f : Obj -> A) : M A :=
  fun w =>
    match heap (session w) !! l with
    | Some o => (Return (f o), w)
    | None => (Raise AttributeError, w)
    end.

(** [obj.attr = value] *)
Definition setattr (l : loc) (f : Obj -> Obj) : M unit :=
  fun w =>
    let h := heap (session w) in
    match h !! l with
    | Some o => (Return tt,
                 mkWorld (with_heap (<[l := f o]> h) (session w)) (calls w))
    | None => (Raise AttributeError, w)
    end.

(** The memo of [copy.deepcopy]: which object is the copy of which. *)
Fixpoint memo_get (l : loc) (memo : list (loc * loc)) : option loc :=
  match memo with
  | [] => None
  | (x, y) :: memo' => if Nat.eqb l x then Some y else memo_get l memo'
  end.

(** The children of an object are copied one after the other, each
    with the memo and the store the one before it left. *)
Fixpoint copy_list
    (copy : loc -> list (loc * loc) * list Obj
            -> option (loc * (list (loc * loc) * list Obj)))
    (cs : list loc) (st : list (loc * loc) * list Obj)
    : option (list loc * (list (loc * loc) * list Obj)) :=
  match cs with
  | [] => Some ([], st)
  | c :: cs' =>
      match copy c st with
      | None => None
      | Some (c', st') =>
          match copy_list copy cs' st' with
          | None => None
          | Some (cs'', st'') => Some (c' :: cs'', st'')
          end
      end
  end.

(** [copy.deepcopy(x, memo)] on a component [l]: an object met before is
    answered from the memo; otherwise a new object is made and entered
    in the memo, the children are copied in order, and the new object
    gets the copies as its children.  The recursion of Python is bounded
    by the interpreter's recursion limit; here by [fuel], and [None]
    stands for running out of it. *)
Fixpoint deepcopy_obj (fuel : nat) (l : loc) (st : list (loc * loc) * list Obj)
    : option (loc * (list (loc * loc) * list Obj)) :=
  match memo_get l (fst st) with
  | Some y => Some (y, st)
  | None =>
      match fuel with
      | 0 => None
      | S fuel' =>
          match snd st !! l with
          | None => Some (l, st)
          | Some o =>
              let y := length (snd st) in
              match copy_list (deepcopy_obj fuel') (children o)
                              ((l, y) :: fst st, snd st ++ [o]) with
              | None => None
              | Some (cs', st') =>
                  Some (y, (fst st', <[y := set_children cs' o]> (snd st')))
              end
          end
      end
  end.

(** [copy.deepcopy(x)]: an empty memo, and room for a recursion as deep
    as the store has objects. *)
Definition deepcopy (l : loc) : M loc :=
  fun w =>
    let h := heap (session w) in
    match deepcopy_obj (S (length h)) l ([], h) with
    | Some (y, st) =>
        (Return y, mkWorld (with_heap (snd st) (session w)) (calls w))
    | None => (Raise RecursionError, w)
    end.

(** Modelled from the spec: [Node._factory] is not among the sources. *)
Definition Node_factory (top_inst : loc) : M Node := ret (mkNode top_inst).

Section Driver.

(** [walk skip_not_present listeners top_node s] is [RDLWalker.walk]
    with its listeners.  They are handed the node and, through it and
    through [ValidateListener(self)], the compiler: they see and may
    change the whole session, and they may raise. *)
Variable walk :
  bool -> list Listener -> Node -> Session -> option Exception * Session.

Definition RDLWalker_walk (skip_not_present : bool) (top_node : Node)
    (listeners : list Listener) : M unit :=
  n <- gets error_count ;;
  record_call (CallWalk skip_not_present listeners top_node n) ;;
  fun w =>
    let '(r, s') := walk skip_not_present listeners top_node (session w) in
    (match r with None => Return tt | Some e => Raise e end,
     mkWorld s' (calls w)).

(** Lines 120-137 of [RDLCompiler.elaborate]. *)
Definition select_top_def (top_def_name : option string) : M (loc * string) :=
  defs <- gets comp_defs ;;
  h <- gets heap ;;
  match top_def_name with
  | Some name =>
      match dict_get name defs with
      | None =>
          msg_fatal ("Elaboration target '" ++ name ++ "' not found")%string
      | Some top_def =>
          fatal_if (negb (isinstance_Addrmap h top_def))
            ("Elaboration target '" ++ name
               ++ "' is not an 'addrmap' component")%string ;;
          ret (top_def, name)
      end
  | None =>
      match List.find (isinstance_Addrmap h) (rev (dict_values defs)) with
      | Some comp_def =>
          name <- getattr comp_def type_name ;;
          ret (comp_def, name)
      | None =>
          msg_fatal "Could not find any 'addrmap' components to elaborate"
      end
  end.

(** [RDLCompiler.elaborate] *)
Definition elaborate (top_def_name inst_name : option string)
    (parameters : option (list (string * PropValue))) : M Node :=
  let parameters := match parameters with None => [] | Some p => p end in
  (* Get top-level component definition to elaborate *)
  target <- select_top_def top_def_name ;;
  let (top_def, top_def_name) := target in
  (* Create a top-level instance *)
  top_inst <- deepcopy top_def ;;
  setattr top_inst (set_is_instance true) ;;
  setattr top_inst
    (set_inst_name (match inst_name with
                    | Some n => n
                    | None => top_def_name
                    end)) ;;
  (* Override parameters as needed *)
  (if truthy (length parameters)
   then raise NotImplementedError else ret tt) ;;
  top_node <- Node_factory top_inst ;;
  (* Resolve all expressions *)
  RDLWalker_walk false top_node [ElabExpressionsListener] ;;
  (* Resolve address and field placement *)
  RDLWalker_walk false top_node
    [PrePlacementValidateListener; StructuralPlacementListener] ;;
  (* Validate design *)
  RDLWalker_walk RDLWalker_default_skip_not_present top_node
    [ValidateListener] ;;
  n <- gets error_count ;;
  fatal_if (truthy n) "Elaborate aborted due to previous errors" ;;
  ret top_node.

End Driver.

(** *** Notions on the object graph *)











(** *** A sample object graph *)



Definition add_property (name : string) (v : PropValue) (o : Obj) : Obj :=
  mkObj (category o) (type_name o) (inst_name o) (is_instance o)
        ((name, v) :: properties o) (children o).


End Graph.

(** ** Properties *)

Section Elaborate.

Variable walk :
  bool -> list Listener -> Component -> nat -> option string * Component * nat.

Lemma find_app_skip {A} (f : A -> bool) (l1 l2 : list A) :
  (forall x, In x l1 -> f x = false) ->
  List.find f (l1 ++ l2) = List.find f l2.
Proof.
  induction l1 as [|a l1 IH]; simpl; intros Hl1; [reflexivity|].
  rewrite (Hl1 a) by auto. apply IH. intros x Hx. apply Hl1. auto.
Qed.

Lemma isinstance_Addrmap_Some h l :
  isinstance_Addrmap h l = true ->
  exists c, h !! l = Some c /\ category c = Addrmap.
Proof.
  unfold isinstance_Addrmap. destruct (h !! l) as [c|]; [|discriminate].
  intros Hc. exists c. split; [reflexivity|].
  destruct (category c); simpl in Hc; congruence.
Qed.

(** Selection with an explicit name. *)
Lemma select_top_def_named name w :
  select_top_def (Some name) w =
  match dict_get name (comp_defs (session w)) with
  | None => (Raise (RDLCompileError (not_found_text name)), w)
  | Some l =>
      if isinstance_Addrmap (heap (session w)) l
      then (Return (l, name), w)
      else (Raise (RDLCompileError (not_addrmap_text name)), w)
  end.
Proof.
  unfold select_top_def, bind, gets. simpl.
  destruct (dict_get name (comp_defs (session w))) as [l|]; [|reflexivity].
  unfold fatal_if. destruct (isinstance_Addrmap _ l); reflexivity.
Qed.

(** Selection without a name. *)
Lemma select_top_def_inferred w :
  select_top_def None w =
  match List.find (isinstance_Addrmap (heap (session w)))
                  (rev (dict_values (comp_defs (session w)))) with
  | None => (Raise (RDLCompileError no_addrmap_text), w)
  | Some l =>
      match heap (session w) !! l with
      | Some c => (Return (l, type_name c), w)
      | None => (Raise AttributeError, w)
      end
  end.
Proof.
  unfold select_top_def, bind, gets. simpl.
  destruct (List.find _ _) as [l|]; [|reflexivity].
  unfold getattr. destruct (heap (session w) !! l); reflexivity.
Qed.

(** Selection only reads the session; what it returns is a live
    address map, and what it raises is [NoElaborationTarget]. *)
Lemma select_top_def_inv t w r w' :
  select_top_def t w = (r, w') ->
  w' = w /\
  match r with
  | Return (l, name) =>
      exists c, heap (session w) !! l = Some c /\ category c = Addrmap /\
                name = match t with Some n => n | None => type_name c end
  | Raise e => NoElaborationTarget t e
  end.
Proof.
  destruct t as [name|].
  - rewrite select_top_def_named.
    destruct (dict_get name _) as [l|].
    + destruct (isinstance_Addrmap _ l) eqn:Hl; intros [= <- <-];
        (split; [reflexivity|]); simpl; [|auto].
      apply isinstance_Addrmap_Some in Hl as (c & Hc & Hcat). eauto.
    + intros [= <- <-]. split; [reflexivity|]. simpl. auto.
  - rewrite select_top_def_inferred.
    destruct (List.find _ _) as [l|] eqn:Hfind.
    + apply find_some in Hfind as [_ Hl].
      apply isinstance_Addrmap_Some in Hl as (c & Hc & Hcat).
      rewrite Hc. intros [= <- <-]. split; [reflexivity|]. eauto.
    + intros [= <- <-]. split; reflexivity.
Qed.

(** *** The driver, step by step *)

Lemma deepcopy_live w l c :
  heap (session w) !! l = Some c ->
  deepcopy l w = (Return (length (heap (session w))), instantiated w c).
Proof. intros Hc. unfold deepcopy. rewrite Hc. reflexivity. Qed.

Lemma setattr_new w c f :
  setattr (length (heap (session w))) f (instantiated w c)
  = (Return tt, instantiated w (f c)).
Proof.
  unfold setattr, instantiated. simpl.
  rewrite list_lookup_middle by reflexivity.
  rewrite insert_app_r_alt by lia. rewrite Nat.sub_diag. reflexivity.
Qed.

Lemma instantiated_walked w c :
  instantiated w c
  = walked (instantiated w c) (mkNode (length (heap (session w)))) c
           (error_count (session w)) [].
Proof.
  unfold walked, instantiated. simpl.
  rewrite list_insert_id by (apply list_lookup_middle; reflexivity).
  rewrite app_nil_r. reflexivity.
Qed.

Lemma RDLWalker_walk_walked skip ls w0 top_node c n cs :
  inst top_node < length (heap (session w0)) ->
  RDLWalker_walk walk skip top_node ls (walked w0 top_node c n cs)
  = (let '(r, c', n') := walk skip ls c n in
     (outcome_of r,
      walked w0 top_node c' n' (cs ++ [CallWalk skip ls top_node n]))).
Proof.
  intros Hlive. unfold RDLWalker_walk, bind, gets, record_call. simpl.
  rewrite list_lookup_insert_eq by assumption.
  destruct (walk skip ls c n) as [[r c'] n']. unfold walked. simpl.
  rewrite list_insert_insert_eq, app_assoc.
  destruct r; reflexivity.
Qed.

Lemma elaborate_no_target t i p w e :
  select_top_def t w = (Raise e, w) ->
  elaborate walk t i p w = (Raise e, w).
Proof. intros Hsel. unfold elaborate, bind. rewrite Hsel. reflexivity. Qed.

(** Once a target is selected, [elaborate] instantiates it, refuses
    parameters, and otherwise runs the passes on the new object. *)
Lemma elaborate_selected t i p w l name c :
  select_top_def t w = (Return (l, name), w) ->
  heap (session w) !! l = Some c ->
  elaborate walk t i p w =
  let w1 := instantiated w (top_instance i name c) in
  if truthy (length (match p with None => [] | Some p => p end))
  then (Raise NotImplementedError, w1)
  else passes_result walk w1 (mkNode (length (heap (session w))))
                     (top_instance i name c) (error_count (session w)).
Proof.
  intros Hsel Hc. unfold elaborate, bind at 1. rewrite Hsel.
  unfold bind at 1. rewrite (deepcopy_live _ _ _ Hc).
  unfold bind at 1. rewrite setattr_new.
  unfold bind at 1. rewrite setattr_new.
  fold (top_instance i name c). cbv zeta.
  unfold bind at 1.
  destruct (truthy _); [reflexivity|].
  unfold ret at 1. unfold bind at 1. unfold Node_factory, ret at 1.
  set (c0 := top_instance i name c).
  set (top_node := mkNode (length (heap (session w)))).
  assert (Hlive : inst top_node < length (heap (session (instantiated w c0)))).
  { simpl. rewrite length_app. simpl. lia. }
  rewrite (instantiated_walked w c0) at 1. fold top_node.
  change (error_count (session w))
    with (error_count (session (instantiated w c0))).
  generalize dependent (instantiated w c0). intros w1 Hlive.
  generalize (error_count (session w1)). intros n0.
  unfold passes_result.
  unfold bind at 1. rewrite RDLWalker_walk_walked by assumption.
  destruct (walk false [ElabExpressionsListener] c0 n0) as [[[text|] c1] n1];
    simpl; [reflexivity|].
  unfold bind at 1. rewrite RDLWalker_walk_walked by assumption.
  destruct (walk false _ c1 n1) as [[[text|] c2] n2]; simpl; [reflexivity|].
  unfold bind at 1. unfold RDLWalker_default_skip_not_present.
  rewrite RDLWalker_walk_walked by assumption.
  destruct (walk true _ c2 n2) as [[[text|] c3] n3]; simpl; [reflexivity|].
  unfold bind, gets, fatal_if, msg_fatal, raise, ret. simpl.
  destruct (truthy n3); reflexivity.
Qed.

(** Every run of [elaborate] is one of: selection failed and nothing
    changed; or a live address map was selected and instantiated, and
    the run went on from there. *)
Lemma elaborate_inv t i p w r w' :
  elaborate walk t i p w = (r, w') ->
  (exists e, select_top_def t w = (Raise e, w) /\ NoElaborationTarget t e /\
             r = Raise e /\ w' = w) \/
  (exists l c,
      let name := match t with Some n => n | None => type_name c end in
      let c0 := top_instance i name c in
      select_top_def t w = (Return (l, name), w) /\
      heap (session w) !! l = Some c /\ category c = Addrmap /\
      (r, w') =
      if truthy (length (match p with None => [] | Some p => p end))
      then (Raise NotImplementedError, instantiated w c0)
      else passes_result walk (instantiated w c0)
             (mkNode (length (heap (session w)))) c0
             (error_count (session w))).
Proof.
  intros Hrun.
  destruct (select_top_def t w) as [[[l name]|e] ws] eqn:Hsel;
    destruct (select_top_def_inv _ _ _ _ Hsel) as [-> Hres].
  - right. destruct Hres as (c & Hc & Hcat & ->). exists l, c. cbv zeta.
    split; [reflexivity|]. split; [assumption|]. split; [assumption|].
    rewrite <- Hrun.
    apply (elaborate_selected t i p w l _ c); assumption.
  - left. exists e. rewrite (elaborate_no_target _ i p _ _ Hsel) in Hrun.
    injection Hrun as <- <-. auto.
Qed.

Lemma find_last_addrmap h (before after : list (string * loc)) k l :
  isinstance_Addrmap h l = true ->
  (forall l', In l' (dict_values after) -> isinstance_Addrmap h l' = false) ->
  List.find (isinstance_Addrmap h)
            (rev (dict_values (before ++ (k, l) :: after))) = Some l.
Proof.
  intros Hl Hafter. unfold dict_values in *.
  rewrite map_app, rev_app_distr. simpl. rewrite <- app_assoc.
  rewrite find_app_skip.
  - simpl. rewrite Hl. reflexivity.
  - intros x Hx. apply Hafter. apply in_rev. assumption.
Qed.

Lemma find_no_addrmap h (ls : list loc) :
  (forall l, In l ls -> isinstance_Addrmap h l = false) ->
  List.find (isinstance_Addrmap h) (rev ls) = None.
Proof.
  intros Hls. destruct (List.find _ _) as [l|] eqn:Hfind; [|reflexivity].
  apply find_some in Hfind as [Hin Hl]. apply in_rev in Hin.
  rewrite (Hls l Hin) in Hl. discriminate.
Qed.

(** *** Target selection *)

(** C1.  [elaborate] fails with the fatal compile error of target
    selection when the requested name is not bound in the root
    namespace, when it is bound to something that is not an address
    map, and, without a requested name, when no address map is defined
    at all.  Without a requested name and with address maps defined,
    the one defined last is selected and it is the one instantiated. *)
Theorem elaborate_target_selection t i p w :
  let defs := comp_defs (session w) in
  let h := heap (session w) in
  (forall name,
      t = Some name -> dict_get name defs = None ->
      elaborate walk t i p w
      = (Raise (RDLCompileError (not_found_text name)), w)) /\
  (forall name l,
      t = Some name -> dict_get name defs = Some l ->
      isinstance_Addrmap h l = false ->
      elaborate walk t i p w
      = (Raise (RDLCompileError (not_addrmap_text name)), w)) /\
  (t = None ->
   (forall l, In l (dict_values defs) -> isinstance_Addrmap h l = false) ->
   elaborate walk t i p w = (Raise (RDLCompileError no_addrmap_text), w)) /\
  (forall before k l after,
      t = None -> defs = before ++ (k, l) :: after ->
      isinstance_Addrmap h l = true ->
      (forall l', In l' (dict_values after) -> isinstance_Addrmap h l' = false) ->
      exists c,
        h !! l = Some c /\
        select_top_def t w = (Return (l, type_name c), w) /\
        elaborate walk t i p w =
        let w1 := instantiated w (top_instance i (type_name c) c) in
        if truthy (length (match p with None => [] | Some p => p end))
        then (Raise NotImplementedError, w1)
        else passes_result walk w1 (mkNode (length h))
               (top_instance i (type_name c) c) (error_count (session w))).
Proof.
  intros defs h. repeat split.
  - intros name -> Hget. apply elaborate_no_target.
    rewrite select_top_def_named. fold defs. rewrite Hget. reflexivity.
  - intros name l -> Hget Hl. apply elaborate_no_target.
    rewrite select_top_def_named. fold defs h. rewrite Hget, Hl. reflexivity.
  - intros -> Hnone. apply elaborate_no_target.
    rewrite select_top_def_inferred. fold defs h.
    rewrite find_no_addrmap by assumption. reflexivity.
  - intros before k l after -> Hdefs Hl Hafter.
    destruct (isinstance_Addrmap_Some _ _ Hl) as (c & Hc & _).
    assert (Hsel : select_top_def None w = (Return (l, type_name c), w)).
    { rewrite select_top_def_inferred. fold defs h. rewrite Hdefs.
      rewrite find_last_addrmap by assumption. rewrite Hc. reflexivity. }
    exists c. split; [assumption|]. split; [assumption|].
    apply (elaborate_selected None i p w l (type_name c) c); assumption.
Qed.

(** A run of the passes that returns went through all three walks
    without a listener stopping it, and ended with a clean counter. *)
Lemma passes_result_Return w0 top_node c0 n0 node w' :
  passes_result walk w0 top_node c0 n0 = (Return node, w') ->
  node = top_node /\
  exists c1 n1 c2 n2 c3,
    walk false [ElabExpressionsListener] c0 n0 = (None, c1, n1) /\
    walk false [PrePlacementValidateListener; StructuralPlacementListener]
         c1 n1 = (None, c2, n2) /\
    walk true [ValidateListener] c2 n2 = (None, c3, 0) /\
    w' = walked w0 top_node c3 0
           [walk1 top_node n0; walk2 top_node n1; walk3 top_node n2].
Proof.
  unfold passes_result.
  destruct (walk false [ElabExpressionsListener] _ _)
    as [[[text|] c1] n1] eqn:E1; [discriminate|].
  destruct (walk false [PrePlacementValidateListener; _] _ _)
    as [[[text|] c2] n2] eqn:E2; [discriminate|].
  destruct (walk true _ _ _) as [[[text|] c3] n3] eqn:E3; [discriminate|].
  cbv zeta. unfold truthy. destruct n3 as [|n3]; simpl; [|discriminate].
  intros [= <- <-]. split; [reflexivity|].
  exists c1, n1, c2, n2, c3. auto.
Qed.

Lemma walked_instantiated_new w c0 c n cs :
  heap (session (walked (instantiated w c0)
                        (mkNode (length (heap (session w)))) c n cs))
    !! length (heap (session w)) = Some c.
Proof.
  simpl. apply list_lookup_insert_eq. rewrite length_app. simpl. lia.
Qed.

(** *** The passes *)

(** C2.  Every run of [elaborate] calls the walker in one fixed
    pattern: a first walk with the expression listener alone, then one
    walk with the pre-placement validator and the placement listener
    attached together, in that order, then a third walk with the final
    validator alone; the first two walkers are configured not to skip
    instances that are not present, the third one skips them.  A run
    that fails makes a prefix of these calls and no other; a run that
    returns made all three, on the node it returns. *)
Theorem elaborate_pass_structure t i p w r w' :
  elaborate walk t i p w = (r, w') ->
  exists cs top_node n1 n2,
    let planned :=
      [CallWalk false [ElabExpressionsListener] top_node
                (error_count (session w));
       CallWalk false
                [PrePlacementValidateListener; StructuralPlacementListener]
                top_node n1;
       CallWalk true [ValidateListener] top_node n2] in
    calls w' = calls w ++ cs /\
    cs `prefix_of` planned /\
    (forall node, r = Return node -> node = top_node /\ cs = planned).
Proof.
  intros Hrun.
  destruct (elaborate_inv _ _ _ _ _ _ Hrun)
    as [(e & _ & _ & -> & ->) | (l & c & Hrest)].
  - exists [], (mkNode 0), 0, 0. cbv zeta. rewrite app_nil_r.
    split; [reflexivity|]. split; [apply prefix_nil|]. discriminate.
  - cbv zeta in Hrest. destruct Hrest as (_ & _ & _ & Hres).
    set (c0 := top_instance _ _ _) in Hres.
    set (top_node := mkNode _) in Hres.
    destruct (truthy (length _)).
    { injection Hres as -> ->. exists [], top_node, 0, 0. cbv zeta.
      simpl. rewrite app_nil_r.
      split; [reflexivity|]. split; [apply prefix_nil|]. discriminate. }
    unfold passes_result in Hres.
    destruct (walk false [ElabExpressionsListener] _ _)
      as [[[text|] c1] n1].
    { injection Hres as -> ->. eexists _, top_node, 0, 0. cbv zeta.
      split; [reflexivity|]. split; [|discriminate].
      eexists. reflexivity. }
    destruct (walk false [PrePlacementValidateListener; _] _ _)
      as [[[text|] c2] n2].
    { injection Hres as -> ->. eexists _, top_node, n1, 0. cbv zeta.
      split; [reflexivity|]. split; [|discriminate].
      eexists. reflexivity. }
    destruct (walk true _ _ _) as [[[text|] c3] n3]; cbv zeta in Hres;
      injection Hres as -> ->; eexists _, top_node, n1, n2; cbv zeta;
      (split; [reflexivity|]); (split; [reflexivity|]).
    + discriminate.
    + destruct (truthy n3); [discriminate|]. intros node [= <-]. auto.
Qed.

(** C3, as the code has it.  [elaborate] checks the error counter
    once, after the final validation walk: a run returns a node only
    with the counter at zero.  Between the walks there is no check:
    when no listener stops its walk, all three walks run, each one
    starting with whatever count the one before it left, and the
    counter decides between the fatal compile error and the node only
    after the third. *)
Theorem elaborate_error_gate t i p w r w' :
  elaborate walk t i p w = (r, w') ->
  (forall top_node, r = Return top_node -> error_count (session w') = 0) /\
  (forall l name c c1 n1 c2 n2 c3 n3,
      select_top_def t w = (Return (l, name), w) ->
      heap (session w) !! l = Some c ->
      truthy (length (match p with None => [] | Some p => p end)) = false ->
      walk false [ElabExpressionsListener]
           (top_instance i name c) (error_count (session w))
      = (None, c1, n1) ->
      walk false [PrePlacementValidateListener; StructuralPlacementListener]
           c1 n1 = (None, c2, n2) ->
      walk true [ValidateListener] c2 n2 = (None, c3, n3) ->
      let top_node := mkNode (length (heap (session w))) in
      new_calls w w'
      = [CallWalk false [ElabExpressionsListener] top_node
                  (error_count (session w));
         CallWalk false
                  [PrePlacementValidateListener; StructuralPlacementListener]
                  top_node n1;
         CallWalk true [ValidateListener] top_node n2] /\
      error_count (session w') = n3 /\
      r = if truthy n3
          then Raise (RDLCompileError elaborate_aborted_text)
          else Return top_node).
Proof.
  intros Hrun. split.
  - intros top_node ->.
    destruct (elaborate_inv _ _ _ _ _ _ Hrun)
      as [(e & _ & _ & [=] & _) | (l & c & Hrest)].
    cbv zeta in Hrest. destruct Hrest as (_ & _ & _ & Hres).
    destruct (truthy (length _)); [discriminate|].
    symmetry in Hres. apply passes_result_Return in Hres
      as (_ & c1 & n1 & c2 & n2 & c3 & _ & _ & _ & ->).
    reflexivity.
  - intros l name c c1 n1 c2 n2 c3 n3 Hsel Hc Hp E1 E2 E3 top_node.
    rewrite (elaborate_selected t i p w l name c Hsel Hc) in Hrun.
    cbv zeta in Hrun. rewrite Hp in Hrun. unfold passes_result in Hrun.
    rewrite E1, E2, E3 in Hrun. cbv zeta in Hrun.
    injection Hrun as <- <-. unfold new_calls. simpl.
    rewrite drop_app_length. auto.
Qed.

(** *** Parameters *)

Lemma passes_result_not_NotImplemented w0 top_node c0 n0 :
  fst (passes_result walk w0 top_node c0 n0) <> Raise NotImplementedError.
Proof.
  unfold passes_result.
  destruct (walk false [ElabExpressionsListener] _ _)
    as [[[text|] c1] n1]; [discriminate|].
  destruct (walk false [PrePlacementValidateListener; _] _ _)
    as [[[text|] c2] n2]; [discriminate|].
  destruct (walk true _ _ _) as [[[text|] c3] n3]; [discriminate|].
  simpl. destruct (truthy n3); discriminate.
Qed.

Lemma NoElaborationTarget_not_NotImplemented t :
  ~ NoElaborationTarget t NotImplementedError.
Proof. destruct t; simpl; intuition discriminate. Qed.

(** C6, as the code has it.  A call with a non-empty parameter map
    never reaches a pass and never returns: when target selection
    succeeds it fails with [NotImplementedError]; when target
    selection fails, that fatal error comes first. *)
Theorem elaborate_parameters_not_implemented t i x xs w r w' :
  elaborate walk t i (Some (x :: xs)) w = (r, w') ->
  calls w' = calls w /\
  (forall node, r <> Return node) /\
  ((exists l name, select_top_def t w = (Return (l, name), w)) ->
   r = Raise NotImplementedError) /\
  (forall e, select_top_def t w = (Raise e, w) ->
             r = Raise e /\ NoElaborationTarget t e).
Proof.
  intros Hrun.
  destruct (elaborate_inv _ _ _ _ _ _ Hrun)
    as [(e & Hsel & He & -> & ->) | (l & c & Hrest)].
  - split; [reflexivity|]. split; [discriminate|]. split.
    + intros (l & name & Hsel'). congruence.
    + intros e' Hsel'. assert (e' = e) as -> by congruence. auto.
  - cbv zeta in Hrest. destruct Hrest as (Hsel & _ & _ & Hres).
    simpl in Hres. injection Hres as -> ->.
    split; [reflexivity|]. split; [discriminate|]. split; [reflexivity|].
    intros e Hsel'. congruence.
Qed.

(** C10.  Leaving the parameters out is the same call as passing an
    empty map, and such a call never fails with
    [NotImplementedError]. *)
Theorem elaborate_parameters_None t i w :
  elaborate walk t i None w = elaborate walk t i (Some []) w /\
  fst (elaborate walk t i None w) <> Raise NotImplementedError.
Proof.
  split; [reflexivity|].
  destruct (elaborate walk t i None w) as [r w'] eqn:Hrun.
  destruct (elaborate_inv _ _ _ _ _ _ Hrun)
    as [(e & _ & He & -> & _) | (l & c & Hrest)]; simpl.
  - intros [= ->]. exact (NoElaborationTarget_not_NotImplemented _ He).
  - cbv zeta in Hrest. destruct Hrest as (_ & _ & _ & Hres). simpl in Hres.
    intros ->.
    eapply passes_result_not_NotImplemented. rewrite <- Hres. reflexivity.
Qed.

(** *** The root instance *)

(** C9.  When the listeners leave the root's instance flag and name
    alone, the node a run returns refers to an instance that is
    flagged as an instance and is named [inst_name] when one was
    given, and otherwise by the name of the selected definition: the
    requested [top_def_name], or the type name of the address map that
    selection found. *)
Theorem elaborate_root_identity t i p w top_node w' :
  keeps_root_identity walk ->
  elaborate walk t i p w = (Return top_node, w') ->
  exists l c c',
    let top_def_name := match t with Some n => n | None => type_name c end in
    select_top_def t w = (Return (l, top_def_name), w) /\
    heap (session w) !! l = Some c /\
    heap (session w') !! inst top_node = Some c' /\
    is_instance c' = true /\
    inst_name c' = Some (match i with Some n => n | None => top_def_name end).
Proof.
  intros Hkeep Hrun.
  destruct (elaborate_inv _ _ _ _ _ _ Hrun)
    as [(e & _ & _ & [=] & _) | (l & c & Hrest)].
  cbv zeta in Hrest. destruct Hrest as (Hsel & Hc & _ & Hres).
  destruct (truthy (length _)); [discriminate|].
  symmetry in Hres. apply passes_result_Return in Hres
    as (-> & c1 & n1 & c2 & n2 & c3 & E1 & E2 & E3 & ->).
  exists l, c, c3. cbv zeta.
  split; [assumption|]. split; [assumption|].
  split; [apply walked_instantiated_new|].
  destruct (Hkeep false [ElabExpressionsListener]
              (top_instance i (match t with Some n => n | None => type_name c end) c)
              (error_count (session w))) as [F1 N1].
  destruct (Hkeep false
              [PrePlacementValidateListener; StructuralPlacementListener]
              c1 n1) as [F2 N2].
  destruct (Hkeep true [ValidateListener] c2 n2) as [F3 N3].
  rewrite E1 in F1, N1. rewrite E2 in F2, N2. rewrite E3 in F3, N3.
  simpl in *. split; [congruence|].
  rewrite N3, N2, N1. reflexivity.
Qed.

End Elaborate.

Section CompileFile.

Variable ParseTree : Type.
Variable antlr_parse : string -> ParseTree * nat.
Variable visit : ParseTree -> Session -> option string * Session.

(** [compile_file], step by step. *)
Lemma compile_file_unfold path w :
  compile_file ParseTree antlr_parse visit path w =
  let s0 := parsed_session antlr_parse path (session w) in
  if truthy (error_count s0)
  then (Raise (RDLCompileError parse_aborted_text), mkWorld s0 (calls w))
  else
    let '(rv, s1) := visit (fst (antlr_parse path)) s0 in
    let cs := calls w ++ [CallVisit (default_property_ns_stack s0)] in
    match rv with
    | Some text => (Raise (RDLCompileError text), mkWorld s1 cs)
    | None =>
        let s2 := with_default_property_ns_stack [[]] s1 in
        (if truthy (error_count s2)
         then Raise (RDLCompileError compile_aborted_text)
         else Return tt,
         mkWorld s2 cs)
    end.
Proof.
  unfold compile_file, parser_root, parsed_session.
  destruct (antlr_parse path) as [tree k]. simpl.
  unfold bind, modify, gets, ret, fatal_if. simpl.
  destruct (truthy (error_count (session w) + k)); [reflexivity|].
  unfold visitor_visit, bind, gets, record_call. simpl.
  destruct (visit tree _) as [[text|] s1]; simpl; [reflexivity|].
  destruct (truthy (error_count s1)); reflexivity.
Qed.

(** C7.  When the front end reports syntax errors, [compile_file]
    fails with the fatal compile error before the visitor is called:
    no visit is recorded and the definitions are untouched.  When the
    visitor has run and the error counter is not zero, [compile_file]
    fails with a fatal compile error instead of returning; a call that
    returns leaves the counter at zero. *)
Theorem compile_file_aborts path w r w' :
  compile_file ParseTree antlr_parse visit path w = (r, w') ->
  (snd (antlr_parse path) <> 0 ->
   r = Raise (RDLCompileError parse_aborted_text) /\
   calls w' = calls w /\
   comp_defs (session w') = comp_defs (session w) /\
   heap (session w') = heap (session w)) /\
  (forall rv s1,
      truthy (error_count (parsed_session antlr_parse path (session w)))
      = false ->
      visit (fst (antlr_parse path))
            (parsed_session antlr_parse path (session w)) = (rv, s1) ->
      error_count s1 <> 0 ->
      r = Raise (RDLCompileError
                   (match rv with
                    | Some text => text
                    | None => compile_aborted_text
                    end))) /\
  (r = Return tt -> error_count (session w') = 0).
Proof.
  rewrite compile_file_unfold. cbv zeta. intros Hrun.
  split; [|split].
  - intros Hsyntax.
    assert (Hs0 : truthy (error_count
                    (parsed_session antlr_parse path (session w))) = true).
    { unfold parsed_session, truthy. simpl.
      destruct (error_count (session w) + snd (antlr_parse path)) eqn:E;
        [lia | reflexivity]. }
    rewrite Hs0 in Hrun. injection Hrun as <- <-. auto.
  - intros rv s1 Hs0 Hvisit Herr. rewrite Hs0, Hvisit in Hrun.
    destruct rv as [text|]; injection Hrun as <- _; [reflexivity|].
    simpl. unfold truthy.
    destruct (error_count s1); [congruence | reflexivity].
  - intros ->. destruct (truthy _); [discriminate|].
    destruct (visit _ _) as [[text|] s1]; [discriminate|].
    destruct (truthy _) eqn:Hs2; [discriminate|].
    injection Hrun as <-. unfold truthy in Hs2. simpl in *.
    destruct (error_count s1); [reflexivity | discriminate].
Qed.

(** What the reset at line 80 does achieve.  A call of [compile_file]
    that returns leaves the default-property stack as one empty frame;
    so does every call in which the visitor ran to its end, also when
    the call then fails on the error counter; a call that fails on
    syntax errors never ran the visitor and leaves the stack as it was.
    After a call that returned, the visitor of the next unit compiled in
    the session starts from one empty frame, whatever the first unit
    assigned.  With a visitor that reports its errors through the
    counter and never stops early, the single empty frame is kept by
    every call, however it ends. *)
Theorem compile_file_resets_defaults path w r w' :
  compile_file ParseTree antlr_parse visit path w = (r, w') ->
  (r = Return tt -> default_property_ns_stack (session w') = [[]]) /\
  (forall s1,
      truthy (error_count (parsed_session antlr_parse path (session w)))
      = false ->
      visit (fst (antlr_parse path))
            (parsed_session antlr_parse path (session w)) = (None, s1) ->
      default_property_ns_stack (session w') = [[]]) /\
  (truthy (error_count (parsed_session antlr_parse path (session w))) = true ->
   calls w' = calls w /\
   default_property_ns_stack (session w')
   = default_property_ns_stack (session w)) /\
  (r = Return tt ->
   forall path2,
     Forall (fun c => c = CallVisit [[]])
            (new_calls w' (snd (compile_file ParseTree antlr_parse visit
                                             path2 w')))) /\
  ((forall tree s, fst (visit tree s) = None) ->
   default_property_ns_stack (session w) = [[]] ->
   default_property_ns_stack (session w') = [[]]).
Proof.
  rewrite compile_file_unfold. cbv zeta. intros Hrun.
  assert (Hret : r = Return tt ->
                 default_property_ns_stack (session w') = [[]]).
  { intros ->. destruct (truthy _); [discriminate|].
    destruct (visit _ _) as [[text|] s1]; [discriminate|].
    injection Hrun as _ <-. reflexivity. }
  split; [exact Hret|]. split; [|split; [|split]].
  - intros s1 Hs0 Hvisit. rewrite Hs0, Hvisit in Hrun.
    injection Hrun as _ <-. reflexivity.
  - intros Hs0. rewrite Hs0 in Hrun. injection Hrun as _ <-. auto.
  - intros Hr path2. specialize (Hret Hr). clear Hrun.
    rewrite compile_file_unfold. cbv zeta. unfold new_calls.
    destruct (truthy _).
    + simpl. rewrite drop_all. constructor.
    + destruct (visit _ _) as [[text|] s1]; simpl;
        rewrite drop_app_length; repeat constructor;
        simpl; rewrite Hret; reflexivity.
  - intros Hquiet Hstack. destruct (truthy _).
    + injection Hrun as _ <-. exact Hstack.
    + specialize (Hquiet (fst (antlr_parse path))
                         (parsed_session antlr_parse path (session w))).
      destruct (visit _ _) as [rv s1]. simpl in Hquiet. subst rv.
      injection Hrun as _ <-. reflexivity.
Qed.

End CompileFile.

(** ** The driver on the sample designs *)

Lemma elaborate_target_selection_witness :
  let w := Sample.compiled "ab.rdl" in
  elaborate Sample.walk (Some "zz") None None w
  = (Raise (RDLCompileError (not_found_text "zz")), w) /\
  elaborate Sample.walk (Some "r") None None w
  = (Raise (RDLCompileError (not_addrmap_text "r")), w) /\
  elaborate Sample.walk None None None RDLCompiler_init
  = (Raise (RDLCompileError no_addrmap_text), RDLCompiler_init) /\
  select_top_def None w = (Return (1, "b"), w).
Proof.
  intros w. split; [|split; [|split]].
  - apply (elaborate_target_selection Sample.walk (Some "zz") None None w);
      reflexivity.
  - apply (proj1 (proj2 (elaborate_target_selection
                           Sample.walk (Some "r") None None w)) "r" 2);
      reflexivity.
  - apply (proj1 (proj2 (proj2 (elaborate_target_selection
                                  Sample.walk None None None RDLCompiler_init))));
      [reflexivity | intros l []].
  - destruct (proj2 (proj2 (proj2 (elaborate_target_selection
                                     Sample.walk None None None w)))
                [("a", 0)] "b" 1 [("r", 2)]) as (c & Hc & Hsel & _).
    + reflexivity.
    + reflexivity.
    + reflexivity.
    + intros l' [<- | []]. reflexivity.
    + injection Hc as <-. exact Hsel.
Defined.

Lemma elaborate_pass_structure_witness :
  let w := Sample.compiled "ab.rdl" in
  let w' := snd (elaborate Sample.walk None None None w) in
  let bad := Sample.compiled "bad.rdl" in
  let stopped := elaborate Sample.strict_walk None None None bad in
  (exists n1 n2,
      calls w' = calls w ++
        [CallWalk false [ElabExpressionsListener] (mkNode 3) 0;
         CallWalk false
                  [PrePlacementValidateListener; StructuralPlacementListener]
                  (mkNode 3) n1;
         CallWalk true [ValidateListener] (mkNode 3) n2]) /\
  (fst stopped = Raise (RDLCompileError "Unresolvable expression") /\
   exists cs top_node n1 n2,
     calls (snd stopped) = calls bad ++ cs /\
     cs `prefix_of`
        [CallWalk false [ElabExpressionsListener] top_node 0;
         CallWalk false
                  [PrePlacementValidateListener; StructuralPlacementListener]
                  top_node n1;
         CallWalk true [ValidateListener] top_node n2]).
Proof.
  intros w w' bad stopped. split.
  - destruct (elaborate_pass_structure Sample.walk None None None w
                (Return (mkNode 3)) w' eq_refl)
      as (cs & top_node & n1 & n2 & Hcalls & _ & Hret).
    destruct (Hret (mkNode 3) eq_refl) as [<- ->].
    exists n1, n2. exact Hcalls.
  - split; [reflexivity|].
    destruct (elaborate_pass_structure Sample.strict_walk None None None bad
                (fst stopped) (snd stopped) eq_refl)
      as (cs & top_node & n1 & n2 & Hcalls & Hprefix & _).
    exists cs, top_node, n1, n2. split; assumption.
Defined.

Lemma elaborate_error_gate_witness :
  let w := Sample.compiled "bad.rdl" in
  let run := elaborate Sample.walk None None None w in
  new_calls w (snd run)
  = [CallWalk false [ElabExpressionsListener] (mkNode 1) 0;
     CallWalk false [PrePlacementValidateListener; StructuralPlacementListener]
              (mkNode 1) 1;
     CallWalk true [ValidateListener] (mkNode 1) 1] /\
  error_count (session (snd run)) = 1 /\
  fst run = Raise (RDLCompileError elaborate_aborted_text).
Proof.
  intros w run.
  destruct (elaborate_error_gate Sample.walk None None None w
              (fst run) (snd run) eq_refl) as [_ Hgate].
  exact (Hgate 0 "bad" Sample.map_bad _ 1 _ 1 _ 1
               eq_refl eq_refl eq_refl eq_refl eq_refl eq_refl).
Defined.

Lemma elaborate_not_gated_after_each_pass :
  let w := Sample.compiled "bad.rdl" in
  ~ gated_after_each_pass w (snd (elaborate Sample.walk None None None w)).
Proof.
  intros w Hgated.
  specialize (Hgated (CallWalk false
                        [PrePlacementValidateListener;
                         StructuralPlacementListener] (mkNode 1) 1)).
  simpl in Hgated. discriminate Hgated. left. reflexivity.
Qed.

Lemma elaborate_parameters_not_implemented_witness :
  let w := Sample.compiled "ab.rdl" in
  fst (elaborate Sample.walk (Some "a") None (Some Sample.width8) w)
  = Raise NotImplementedError /\
  fst (elaborate Sample.walk (Some "zz") None (Some Sample.width8) w)
  = Raise (RDLCompileError (not_found_text "zz")).
Proof.
  intros w. split.
  - destruct (elaborate_parameters_not_implemented Sample.walk (Some "a") None
                ("WIDTH", VInt 8) [] w _ _ eq_refl) as (_ & _ & Hsel & _).
    apply Hsel. exists 0, "a". reflexivity.
  - destruct (elaborate_parameters_not_implemented Sample.walk (Some "zz") None
                ("WIDTH", VInt 8) [] w _ _ eq_refl) as (_ & _ & _ & Hfail).
    apply (Hfail (RDLCompileError (not_found_text "zz"))). reflexivity.
Defined.

Lemma elaborate_parameters_target_first :
  fst (elaborate Sample.walk (Some "zz") None (Some Sample.width8)
                 (Sample.compiled "ab.rdl"))
  <> Raise NotImplementedError.
Proof. discriminate. Qed.

Lemma compile_file_aborts_witness :
  let broken := compile_file _ Sample.parse Sample.visit "broken.rdl"
                             RDLCompiler_init in
  let dup := compile_file _ Sample.parse Sample.visit "dup.rdl"
                          RDLCompiler_init in
  (fst broken = Raise (RDLCompileError parse_aborted_text) /\
   calls (snd broken) = [] /\ comp_defs (session (snd broken)) = []) /\
  fst dup = Raise (RDLCompileError compile_aborted_text).
Proof.
  intros broken dup. split.
  - destruct (compile_file_aborts _ Sample.parse Sample.visit "broken.rdl"
                RDLCompiler_init (fst broken) (snd broken) eq_refl)
      as (Hsyntax & _ & _).
    destruct Hsyntax as (Hr & Hcalls & Hdefs & _); [discriminate|].
    auto.
  - destruct (compile_file_aborts _ Sample.parse Sample.visit "dup.rdl"
                RDLCompiler_init (fst dup) (snd dup) eq_refl)
      as (_ & Hsemantic & _).
    apply (Hsemantic None (snd (Sample.visit (fst (Sample.parse "dup.rdl"))
                                             (session RDLCompiler_init))));
      [reflexivity | reflexivity | discriminate].
Defined.

Lemma compile_file_resets_defaults_witness :
  let first := compile_file _ Sample.parse Sample.visit "ab.rdl"
                            RDLCompiler_init in
  let second := compile_file _ Sample.parse Sample.visit "bad.rdl"
                             (snd first) in
  default_property_ns_stack
    (snd (Sample.visit Sample.unit_ab (session RDLCompiler_init)))
  = [[("sw", VStr "rw")]] /\
  default_property_ns_stack (session (snd first)) = [[]] /\
  Forall (fun c => c = CallVisit [[]]) (new_calls (snd first) (snd second)).
Proof.
  intros first second.
  destruct (compile_file_resets_defaults _ Sample.parse Sample.visit "ab.rdl"
              RDLCompiler_init (fst first) (snd first) eq_refl)
    as (Hret & _ & _ & Hnext & _).
  split; [reflexivity|]. split; [exact (Hret eq_refl)|].
  exact (Hnext eq_refl "bad.rdl").
Defined.

(** C5.  The reset of the default-property stack is skipped when the
    visitor raises.  The first unit assigns a default property and then
    runs into a fatal error of the visitor: the call fails with that
    error, the counter is still zero and the frame with the assignment
    is still on the stack.  The second unit of the session is then
    compiled without error, and its visitor starts from the frame the
    first unit left. *)
Lemma compile_file_leaks_defaults :
  let first := compile_file _ Sample.parse_conflict Sample.fatal_visit
                            "conflict.rdl" RDLCompiler_init in
  let second := compile_file _ Sample.parse_conflict Sample.fatal_visit
                             "bad.rdl" (snd first) in
  fst first = Raise (RDLCompileError "Multiple declarations of type") /\
  error_count (session (snd first)) = 0 /\
  default_property_ns_stack (session (snd first)) = [[("sw", VStr "rw")]] /\
  fst second = Return tt /\
  new_calls (snd first) (snd second) = [CallVisit [[("sw", VStr "rw")]]].
Proof. repeat (split; [reflexivity|]). reflexivity. Qed.

(** The sample listeners never touch the instance flag or name. *)
Lemma Sample_listen_keeps_root l c n :
  is_instance (fst (Sample.listen l (c, n))) = is_instance c /\
  inst_name (fst (Sample.listen l (c, n))) = inst_name c.
Proof.
  destruct l; simpl; try (split; reflexivity).
  destruct (Sample.has_property _ c); split; reflexivity.
Qed.

Lemma Sample_walk_keeps_root_identity : keeps_root_identity Sample.walk.
Proof.
  intros skip ls c n. unfold Sample.walk.
  induction (rev ls) as [|l ls' IH]; simpl.
  - split; reflexivity.
  - destruct (fold_right Sample.listen (c, n) ls') as [c' n'] eqn:Hfold.
    simpl in IH.
    destruct (Sample_listen_keeps_root l c' n') as [Hflag Hname].
    destruct (Sample.listen l (c', n')) as [c'' n'']. simpl in *.
    destruct IH as [IHflag IHname]. split; congruence.
Qed.

Lemma elaborate_root_identity_witness :
  let w := Sample.compiled "ab.rdl" in
  (exists c', heap (session (snd (elaborate Sample.walk None None None w))) !! 3
              = Some c' /\
              is_instance c' = true /\ inst_name c' = Some "b") /\
  (exists c', heap (session (snd (elaborate Sample.walk (Some "a") (Some "top")
                                            None w))) !! 3
              = Some c' /\
              is_instance c' = true /\ inst_name c' = Some "top").
Proof.
  intros w. split.
  - destruct (elaborate_root_identity Sample.walk None None None w (mkNode 3) _
                Sample_walk_keeps_root_identity eq_refl)
      as (l & c & c' & Hsel & Hc & Hc' & Hflag & Hname).
    exists c'. split; [exact Hc'|]. split; [exact Hflag|].
    rewrite Hname. injection Hsel as <- Hn. rewrite <- Hn. reflexivity.
  - destruct (elaborate_root_identity Sample.walk (Some "a") (Some "top") None w
                (mkNode 3) _ Sample_walk_keeps_root_identity eq_refl)
      as (l & c & c' & _ & _ & Hc' & Hflag & Hname).
    exists c'. auto.
Defined.

(** ** More on the driver *)

Section ElaborateMore.

Variable walk :
  bool -> list Listener -> Component -> nat -> option string * Component * nat.

Lemma dict_get_app_skip {V} k (before d : list (string * V)) :
  dict_get k before = None -> dict_get k (before ++ d) = dict_get k d.
Proof.
  induction before as [|[k' v] before IH]; simpl; [reflexivity|].
  destruct (String.eqb k k'); [discriminate | exact IH].
Qed.

(** X1.  With nothing in the root namespace, as in a compiler that has
    compiled no file yet, [elaborate] fails whatever it is asked: with
    the not-found error for a requested name, and with the no-addrmap
    error otherwise; the session is left as it was. *)
Theorem elaborate_empty_library t i p w :
  comp_defs (session w) = [] ->
  elaborate walk t i p w
  = (Raise (RDLCompileError
              (match t with
               | Some name => not_found_text name
               | None => no_addrmap_text
               end)), w).
Proof.
  intros Hempty. apply elaborate_no_target. destruct t as [name|].
  - rewrite select_top_def_named, Hempty. reflexivity.
  - rewrite select_top_def_inferred, Hempty. reflexivity.
Qed.

(** X2.  Leaving [top_def_name] out is the same call as asking for the
    address map defined last by its name, when that map is bound under
    its own type name. *)
Theorem elaborate_default_target i p w before k l after c :
  comp_defs (session w) = before ++ (k, l) :: after ->
  dict_get k before = None ->
  heap (session w) !! l = Some c ->
  category c = Addrmap ->
  type_name c = k ->
  (forall l', In l' (dict_values after) ->
              isinstance_Addrmap (heap (session w)) l' = false) ->
  elaborate walk None i p w = elaborate walk (Some k) i p w.
Proof.
  intros Hdefs Hfresh Hc Hcat Hname Hafter.
  assert (Hl : isinstance_Addrmap (heap (session w)) l = true).
  { unfold isinstance_Addrmap. rewrite Hc, Hcat. reflexivity. }
  assert (Hinferred : select_top_def None w = (Return (l, k), w)).
  { rewrite select_top_def_inferred, Hdefs.
    rewrite find_last_addrmap by assumption. rewrite Hc, Hname. reflexivity. }
  assert (Hnamed : select_top_def (Some k) w = (Return (l, k), w)).
  { rewrite select_top_def_named, Hdefs.
    rewrite dict_get_app_skip by assumption. simpl.
    rewrite String.eqb_refl, Hl. reflexivity. }
  rewrite (elaborate_selected walk None i p w l k c Hinferred Hc).
  rewrite (elaborate_selected walk (Some k) i p w l k c Hnamed Hc).
  reflexivity.
Qed.

(** X5.  In a session whose message handler has already counted an
    error, [elaborate] never returns a node, as long as the listeners do
    not take errors off the counter. *)
Theorem elaborate_after_errors t i p w :
  counter_monotone walk ->
  error_count (session w) <> 0 ->
  forall node, fst (elaborate walk t i p w) <> Return node.
Proof.
  intros Hmono Hcount node.
  destruct (elaborate walk t i p w) as [r w'] eqn:Hrun. simpl. intros ->.
  destruct (elaborate_inv _ _ _ _ _ _ _ Hrun)
    as [(e & _ & _ & [=] & _) | (l & c & Hrest)].
  cbv zeta in Hrest. destruct Hrest as (_ & _ & _ & Hres).
  destruct (truthy (length _)); [discriminate|].
  symmetry in Hres. apply passes_result_Return in Hres
    as (_ & c1 & n1 & c2 & n2 & c3 & E1 & E2 & E3 & _).
  pose proof (Hmono false [ElabExpressionsListener]
                (top_instance i
                   (match t with Some n => n | None => type_name c end) c)
                (error_count (session w))) as M1.
  pose proof (Hmono false
                [PrePlacementValidateListener; StructuralPlacementListener]
                c1 n1) as M2.
  pose proof (Hmono true [ValidateListener] c2 n2) as M3.
  rewrite E1 in M1. rewrite E2 in M2. rewrite E3 in M3. simpl in *. lia.
Qed.

End ElaborateMore.

Section CompileFileMore.

Variable ParseTree : Type.
Variable antlr_parse : string -> ParseTree * nat.
Variable visit : ParseTree -> Session -> option string * Session.

Lemma truthy_false n : truthy n = false <-> n = 0.
Proof. unfold truthy. destruct n; simpl; split; congruence. Qed.

(** X8.  [compile_file] returns exactly when the session had no error
    counted, the file has no syntax error, and the visitor ran to its
    end without counting an error. *)
Theorem compile_file_returns_iff path w :
  fst (compile_file ParseTree antlr_parse visit path w) = Return tt <->
  error_count (session w) = 0 /\
  snd (antlr_parse path) = 0 /\
  fst (visit (fst (antlr_parse path))
             (parsed_session antlr_parse path (session w))) = None /\
  error_count (snd (visit (fst (antlr_parse path))
                          (parsed_session antlr_parse path (session w)))) = 0.
Proof.
  rewrite compile_file_unfold. cbv zeta.
  destruct (truthy (error_count _)) eqn:Hs0.
  - split; [discriminate|]. intros (Hcount & Hsyntax & _).
    unfold parsed_session, truthy in Hs0. simpl in Hs0.
    rewrite Hcount, Hsyntax in Hs0. discriminate.
  - apply truthy_false in Hs0. simpl in Hs0.
    destruct (visit _ _) as [[text|] s1]; simpl.
    + split; [discriminate|]. intros (_ & _ & [=] & _).
    + destruct (truthy (error_count s1)) eqn:Hs1.
      * split; [discriminate|]. intros (_ & _ & _ & Hzero).
        rewrite Hzero in Hs1. discriminate.
      * apply truthy_false in Hs1. split; [|reflexivity].
        intros _. repeat split; [lia | lia | assumption].
Qed.

End CompileFileMore.

(** ** The short version of [docs/conf.py] *)

Lemma str_split_not_nil sep s : str_split sep s <> [].
Proof.
  destruct s as [|c s]; simpl; [discriminate|].
  destruct (Ascii.eqb c sep); [discriminate|].
  destruct (str_split sep s); discriminate.
Qed.

Lemma str_join_cons sep piece next rest :
  str_join sep (piece :: next :: rest)
  = (piece ++ sep ++ str_join sep (next :: rest))%string.
Proof. reflexivity. Qed.

Lemma str_join_String sep c piece rest :
  str_join sep (String c piece :: rest) = String c (str_join sep (piece :: rest)).
Proof. destruct rest; reflexivity. Qed.

Lemma str_join_cons_char sep piece next rest :
  str_join (String sep EmptyString) (piece :: next :: rest)
  = (piece ++ String sep (str_join (String sep EmptyString) (next :: rest)))%string.
Proof. reflexivity. Qed.

(** Joining what was split gives the string back. *)
Lemma str_join_split sep s :
  str_join (String sep EmptyString) (str_split sep s) = s.
Proof.
  induction s as [|c s IH]; simpl; [reflexivity|].
  destruct (Ascii.eqb c sep) eqn:Hc.
  - apply Ascii.eqb_eq in Hc as ->.
    pose proof (str_split_not_nil sep s) as Hne.
    destruct (str_split sep s) as [|piece pieces]; [congruence|].
    rewrite str_join_cons, IH. reflexivity.
  - pose proof (str_split_not_nil sep s) as Hne.
    destruct (str_split sep s) as [|piece pieces]; [congruence|].
    rewrite str_join_String, IH. reflexivity.
Qed.

(** No piece of a split holds the separator. *)
Lemma str_split_pieces sep s :
  Forall (fun piece => occurs sep piece = false) (str_split sep s).
Proof.
  induction s as [|c s IH]; simpl.
  - repeat constructor.
  - destruct (Ascii.eqb c sep) eqn:Hc.
    + constructor; [reflexivity | exact IH].
    + destruct (str_split sep s) as [|piece pieces];
        [repeat constructor; simpl; rewrite Hc; reflexivity|].
      inversion IH as [|? ? Hpiece Hpieces]. subst.
      constructor; [simpl; rewrite Hc, Hpiece; reflexivity | assumption].
Qed.

Lemma str_split_clean sep piece :
  occurs sep piece = false -> str_split sep piece = [piece].
Proof.
  induction piece as [|c piece IH]; simpl; [reflexivity|].
  destruct (Ascii.eqb c sep); simpl; [discriminate|].
  intros Hpiece. rewrite (IH Hpiece). reflexivity.
Qed.

Lemma str_split_app_sep sep piece s :
  occurs sep piece = false ->
  str_split sep (piece ++ String sep s) = piece :: str_split sep s.
Proof.
  induction piece as [|c piece IH]; simpl.
  - rewrite Ascii.eqb_refl. reflexivity.
  - destruct (Ascii.eqb c sep); simpl; [discriminate|].
    intros Hpiece. rewrite (IH Hpiece). reflexivity.
Qed.

(** Splitting what was joined gives the pieces back, when no piece holds
    the separator. *)
Lemma str_split_join sep pieces :
  pieces <> [] ->
  Forall (fun piece => occurs sep piece = false) pieces ->
  str_split sep (str_join (String sep EmptyString) pieces) = pieces.
Proof.
  induction pieces as [|piece rest IH]; [congruence|].
  intros _ Hclean. inversion Hclean as [|? ? Hpiece Hrest]. subst.
  destruct rest as [|next rest].
  - simpl. apply str_split_clean. assumption.
  - rewrite str_join_cons_char.
    rewrite str_split_app_sep by assumption.
    rewrite IH by (assumption || discriminate). reflexivity.
Qed.

Lemma string_append_assoc (a b c : string) :
  ((a ++ b) ++ c)%string = (a ++ (b ++ c))%string.
Proof.
  induction a as [|x a IH]; [reflexivity|].
  change (String x ((a ++ b) ++ c) = String x (a ++ (b ++ c)))%string.
  rewrite IH. reflexivity.
Qed.

Lemma str_join_app sep l1 l2 :
  l1 <> [] -> l2 <> [] ->
  str_join sep (l1 ++ l2) = (str_join sep l1 ++ sep ++ str_join sep l2)%string.
Proof.
  induction l1 as [|piece rest IH]; [congruence|]. intros _ Hl2.
  destruct rest as [|next rest].
  - destruct l2; [congruence | reflexivity].
  - change ((piece :: next :: rest) ++ l2)
      with (piece :: next :: (rest ++ l2)).
    rewrite !str_join_cons.
    change (next :: rest ++ l2) with ((next :: rest) ++ l2).
    rewrite IH by (assumption || discriminate).
    rewrite !string_append_assoc. reflexivity.
Qed.

Lemma string_append_empty (a : string) : (a ++ EmptyString)%string = a.
Proof.
  induction a as [|x a IH]; [reflexivity|].
  change (String x (a ++ EmptyString) = String x a)%string.
  rewrite IH. reflexivity.
Qed.

(** The first pieces joined are the start of all pieces joined. *)
Lemma str_join_firstn sep n pieces :
  exists rest,
    str_join sep pieces = (str_join sep (firstn n pieces) ++ rest)%string.
Proof.
  pose proof (firstn_skipn n pieces) as Hpieces.
  destruct (firstn n pieces) as [|x xs].
  - eexists. reflexivity.
  - destruct (skipn n pieces) as [|y ys]; rewrite <- Hpieces.
    + exists EmptyString. rewrite app_nil_r, string_append_empty. reflexivity.
    + eexists. apply str_join_app; discriminate.
Qed.

(** X9.  The short version is the start of the full version. *)
Theorem rdl_version_short_prefix rdl_version :
  exists rest, rdl_version = (rdl_version_short rdl_version ++ rest)%string.
Proof.
  destruct (str_join_firstn (String dot EmptyString) 2
                            (str_split dot rdl_version)) as [rest Hrest].
  rewrite str_join_split in Hrest. exists rest. exact Hrest.
Qed.

(** X10.  The short version splits into the first two components of
    the full version, so it has at most two, and shortening it again
    changes nothing. *)
Theorem rdl_version_short_components rdl_version :
  str_split dot (rdl_version_short rdl_version)
  = firstn 2 (str_split dot rdl_version) /\
  length (str_split dot (rdl_version_short rdl_version)) <= 2 /\
  rdl_version_short (rdl_version_short rdl_version)
  = rdl_version_short rdl_version.
Proof.
  assert (Hsplit : str_split dot (rdl_version_short rdl_version)
                   = firstn 2 (str_split dot rdl_version)).
  { unfold rdl_version_short. apply str_split_join.
    - pose proof (str_split_not_nil dot rdl_version).
      destruct (str_split dot rdl_version); [congruence | discriminate].
    - apply Forall_take. apply str_split_pieces. }
  split; [exact Hsplit|]. split.
  - rewrite Hsplit. rewrite length_take. lia.
  - unfold rdl_version_short at 1. rewrite Hsplit.
    rewrite take_take. reflexivity.
Qed.

(** X11.  A version of at most two components is its own short
    version. *)
Theorem rdl_version_short_fixed rdl_version :
  length (str_split dot rdl_version) <= 2 ->
  rdl_version_short rdl_version = rdl_version.
Proof.
  intros Hlen. unfold rdl_version_short.
  rewrite firstn_all2 by assumption. apply str_join_split.
Qed.

(** ** More runs on the sample designs *)

Lemma elaborate_empty_library_witness :
  elaborate Sample.walk (Some "top") None None RDLCompiler_init
  = (Raise (RDLCompileError (not_found_text "top")), RDLCompiler_init) /\
  elaborate Sample.walk None (Some "top") (Some Sample.width8) RDLCompiler_init
  = (Raise (RDLCompileError no_addrmap_text), RDLCompiler_init).
Proof.
  split.
  - apply (elaborate_empty_library Sample.walk (Some "top")). reflexivity.
  - apply (elaborate_empty_library Sample.walk None). reflexivity.
Defined.

Lemma elaborate_default_target_witness :
  let w := Sample.compiled "ab.rdl" in
  elaborate Sample.walk None (Some "top") None w
  = elaborate Sample.walk (Some "b") (Some "top") None w.
Proof.
  intros w.
  apply (elaborate_default_target Sample.walk (Some "top") None w
           [("a", 0)] "b" 1 [("r", 2)] Sample.map_b);
    try reflexivity.
  intros l' [<- | []]. reflexivity.
Defined.

Lemma Sample_walk_counter_monotone : counter_monotone Sample.walk.
Proof.
  intros skip ls c n. unfold Sample.walk.
  induction (rev ls) as [|l ls' IH]; simpl; [lia|].
  destruct (fold_right Sample.listen (c, n) ls') as [c' n']. simpl in IH.
  destruct l; simpl; try exact IH.
  destruct (Sample.has_property _ c'); simpl; lia.
Qed.

Lemma elaborate_after_errors_witness :
  let w := snd (compile_file _ Sample.parse Sample.visit "dup.rdl"
                             RDLCompiler_init) in
  error_count (session w) = 1 /\
  fst (elaborate Sample.walk (Some "a") None None w) <> Return (mkNode 1).
Proof.
  intros w. split; [reflexivity|].
  apply (elaborate_after_errors Sample.walk (Some "a") None None w
           Sample_walk_counter_monotone).
  discriminate.
Defined.

Lemma compile_file_returns_iff_witness :
  fst (compile_file _ Sample.parse Sample.visit "ab.rdl" RDLCompiler_init)
  = Return tt.
Proof.
  apply (compile_file_returns_iff _ Sample.parse Sample.visit "ab.rdl"
           RDLCompiler_init).
  repeat (split; [reflexivity|]). reflexivity.
Defined.

Lemma rdl_version_short_fixed_witness :
  rdl_version_short "0.9" = "0.9".
Proof. apply rdl_version_short_fixed. simpl. lia. Defined.

Example rdl_version_short_example :
  rdl_version_short "1.2.3" = "1.2" /\ rdl_version_short "1..3" = "1." /\
  rdl_version_short "7" = "7" /\ rdl_version_short "" = "".
Proof. repeat split. Qed.

(** ** Deep copy on the object graph *)

Section GraphCopy.

Import Graph.


















Variable walk :
  bool -> list Listener -> Node -> Session -> option Exception * Session.








End GraphCopy.


